(** * kazlog: positional formatter and logger dispatch

    A shallow embedding of [kazlog/kazlog.h]: the [Formatter] class
    ([format] / [do_format]), and the [Logger] class with its severity
    filter, the [warn_once] table and the fan-out to the attached
    handlers.  Strings are [string], [int32_t] values are [Z], the
    [std::unordered_map<std::string, std::unordered_set<int32_t>>] of
    [warn_once] is a [gmap string (gset Z)], and the effects of a logging
    call (handler invocations, clock reads, the static table) are threaded
    through an explicit [World]. *)

From Stdlib Require Import ZArith String Ascii DecimalString.
From stdpp Require Import gmap strings list.

Local Open Scope Z_scope.

(** ** The parts of the C++ standard library the header relies on *)

Module Std.

(** [std::to_string(int32_t)], and [operator<<] on an [int]: decimal,
    with a leading minus sign for negative values. *)
Definition to_string (n : Z) : string :=
  NilZero.string_of_int (Z.to_int n).

(** [std::string::size_type]; [npos] is the value [find] returns when
    there is no match, and it is larger than the size of any string. *)
Inductive size_type :=
| pos (n : nat)
| npos.

Definition size_succ (p : size_type) : size_type :=
  match p with
  | pos n => pos (S n)
  | npos => npos
  end.

(** [s.find(pat)]: index of the first occurrence of [pat] in [s]. *)
Fixpoint find (s pat : string) : size_type :=
  if String.prefix pat s then pos 0
  else match s with
       | EmptyString => npos
       | String _ s' => size_succ (find s' pat)
       end.

Fixpoint str_take (n : nat) (s : string) : string :=
  match n, s with
  | S n', String c s' => String c (str_take n' s')
  | _, _ => EmptyString
  end.

Fixpoint str_drop (n : nat) (s : string) : string :=
  match n, s with
  | S n', String _ s' => str_drop n' s'
  | _, _ => s
  end.

(** The exceptions of the library that the header can raise. *)
Inductive thrown :=
| out_of_range.

(** What a call expression amounts to: the value it returns, the
    exception it lets escape, or no program at all when the call has no
    well-formed instantiation.  [Out_of_fuel] belongs to the model only. *)
Inductive result (A : Type) :=
| Returned (a : A)
| Thrown (e : thrown)
| Ill_formed
| Out_of_fuel.
Arguments Returned {A} a.
Arguments Thrown {A} e.
Arguments Ill_formed {A}.
Arguments Out_of_fuel {A}.

Definition bind {A B} (r : result A) (k : A -> result B) : result B :=
  match r with
  | Returned a => k a
  | Thrown e => Thrown e
  | Ill_formed => Ill_formed
  | Out_of_fuel => Out_of_fuel
  end.

(** [s.replace(p, len, str)]: throws [std::out_of_range] when
    [p > s.size()], otherwise replaces the characters
    [p .. p + min(len, s.size() - p)] of [s] by [str]. *)
Definition replace (s : string) (p : size_type) (len : nat) (str : string)
  : string + thrown :=
  match p with
  | npos => inr out_of_range
  | pos n =>
      if (String.length s <? n)%nat then inr out_of_range
      else inl (str_take n s +:+ str
                +:+ str_drop (n + Nat.min len (String.length s - n)) s)
  end.

End Std.

(** ** [class Formatter] *)

Module Formatter.
Import Std.

(** [struct Counter { int32_t val; }], default-constructed with [val = 0]. *)
Record Counter := mkCounter { val : Z }.

(** The values a call site passes to [format]: an [int32_t], as the header
    itself does with the line number, or text.  The variadic [do_format]
    also passes a [Counter] on (see [do_format] below), so a [Counter] is
    an argument as well. *)
Inductive arg :=
| Int (n : Z)
| Str (s : string)
| Cnt (c : Counter).

(** [ss << val; ss.str()].  [Counter] has no [operator<<] and converts to
    nothing that has one: there is no text for it. *)
Definition stream (v : arg) : option string :=
  match v with
  | Int n => Some (to_string n)
  | Str s => Some s
  | Cnt _ => None
  end.

(** The types of those values, for overload resolution and template
    instantiation. *)
Inductive ty :=
| int32_t
| string_t
| Counter_t.

Definition type_of (v : arg) : ty :=
  match v with
  | Int _ => int32_t
  | Str _ => string_t
  | Cnt _ => Counter_t
  end.

(** Whether [ss << val] compiles for a [val] of that type. *)
Definition has_inserter (t : ty) : bool :=
  match t with
  | Counter_t => false
  | int32_t | string_t => true
  end.

(** [to_replace = "{" + std::to_string(count.val) + "}"] *)
Definition to_replace (count : Counter) : string :=
  "{" +:+ to_string (val count) +:+ "}".

(** Lines 48-55 and 60-66: the substitution both overloads perform on a
    copy of [str_], with [text] the content of [ss]. *)
Definition substitute (str_ : string) (count : Counter) (text : string)
  : string + thrown :=
  let result := str_ in
  replace result (find result (to_replace count))
          (String.length (to_replace count)) text.

(** [do_format(count, args...)], statement by statement.

    - no argument: neither overload takes a lone [Counter];
    - one argument: the overload of lines 46-56;
    - more: the overload of lines 58-68.  Its last line is
      [Formatter(result).format(Counter(count.val + 1), args...)], and
      [format(xs...)] is [do_format(Counter(), xs...)] (line 40), so the
      call is [do_format(Counter(), Counter(count.val + 1), args...)] on
      the new formatter: the counter starts again from [0] and the next
      counter travels as the first value to substitute.  The argument
      list does not get shorter, hence the fuel. *)
Fixpoint do_format (fuel : nat) (str_ : string) (count : Counter)
         (args : list arg) : result string :=
  match args with
  | [] => Ill_formed
  | [v] =>
      match stream v with
      | None => Ill_formed
      | Some text =>
          match substitute str_ count text with
          | inl result => Returned result
          | inr e => Thrown e
          end
      end
  | v :: rest =>
      match stream v with
      | None => Ill_formed
      | Some text =>
          match substitute str_ count text with
          | inl result =>
              match fuel with
              | O => Out_of_fuel
              | S fuel' =>
                  do_format fuel' result (mkCounter 0)
                            (Cnt (mkCounter (val count + 1)) :: rest)
              end
          | inr e => Thrown e
          end
      end
  end.

(** Template instantiation happens before anything runs: a call
    [do_format(Counter, Ts...)] is well formed when an overload is
    selected and its body compiles, which for the variadic overload
    includes the call [do_format(Counter, Counter, Args...)] it makes.
    [depth] bounds the chain of specialisations followed; the second
    one already refers to itself. *)
Fixpoint instantiates (depth : nat) (ts : list ty) : bool :=
  match ts with
  | [] => false
  | [t] => has_inserter t
  | t :: rest =>
      has_inserter t &&
      match depth with
      | O => true
      | S depth' => instantiates depth' (Counter_t :: rest)
      end
  end.

(** [Formatter(str_).format(args...)] (lines 38-41). *)
Definition format (str_ : string) (args : list arg) : result string :=
  if instantiates 1 (type_of <$> args)
  then do_format 1 str_ (mkCounter 0) args
  else Ill_formed.

(** Whether the token [{i}] for [count.val = i] occurs in [str]. *)
Definition has_placeholder (count : Counter) (str : string) : bool :=
  match find str (to_replace count) with
  | pos _ => true
  | npos => false
  end.

End Formatter.

(** ** [class Logger] and what it talks to *)

Module Logger.
Import Std.

(** [enum LOG_LEVEL] with the values the header gives its enumerators. *)
Inductive LOG_LEVEL :=
| LOG_LEVEL_NONE
| LOG_LEVEL_ERROR
| LOG_LEVEL_WARN
| LOG_LEVEL_INFO
| LOG_LEVEL_DEBUG.

Definition level_value (l : LOG_LEVEL) : Z :=
  match l with
  | LOG_LEVEL_NONE => 0
  | LOG_LEVEL_ERROR => 1
  | LOG_LEVEL_WARN => 2
  | LOG_LEVEL_INFO => 3
  | LOG_LEVEL_DEBUG => 4
  end.

(** [Handler::ptr]: a shared pointer, compared by the handler it points to. *)
Definition Handler_ptr := nat.

(** [DateTime]: a [system_clock] time point, as its tick count. *)
Definition DateTime := Z.

(** The data members of [Logger] (lines 192-195). *)
Record Logger := mkLogger {
  name_ : string;
  handlers_ : list Handler_ptr;
  level_ : LOG_LEVEL
}.

(** [Logger(name)] (lines 119-123). *)
Definition new_Logger (name : string) : Logger :=
  {| name_ := name; handlers_ := []; level_ := LOG_LEVEL_DEBUG |}.

(** [add_handler] (lines 125-128): [push_back], duplicates included. *)
Definition add_handler (handler : Handler_ptr) (this : Logger) : Logger :=
  {| name_ := name_ this;
     handlers_ := handlers_ this ++ [handler];
     level_ := level_ this |}.

(** [set_level] (lines 176-178). *)
Definition set_level (level : LOG_LEVEL) (this : Logger) : Logger :=
  {| name_ := name_ this;
     handlers_ := handlers_ this;
     level_ := level |}.

(** One call of [Handler::write_message], with the arguments it received. *)
Record Invocation := mkInvocation {
  inv_handler : Handler_ptr;
  inv_logger : Logger;
  inv_time : DateTime;
  inv_level : string;
  inv_message : string
}.

(** Everything outside the logger object that a logging call reads or
    changes:
    - [trace]: the handler invocations made so far, oldest first;
    - [warned]: the function-local [static] table of [warn_once]
      (line 158), one for the whole process;
    - [clock], [ticks]: [std::chrono::system_clock]; the [k]-th call of
      [now()] in the process returns [clock k], and [ticks] calls have
      been made;
    - [thread]: what [operator<<] prints for the [get_id()] of the
      calling thread. *)
Record World := mkWorld {
  trace : list Invocation;
  warned : gmap string (gset Z);
  clock : nat -> DateTime;
  ticks : nat;
  thread : string
}.

(** [std::chrono::system_clock::now()] *)
Definition now (w : World) : DateTime * World :=
  (clock w (ticks w),
   {| trace := trace w; warned := warned w; clock := clock w;
      ticks := S (ticks w); thread := thread w |}).

(** Modelled from the spec: [Handler::write_message] is declared at
    lines 82-85 and defined outside the header.  The spec gives it the
    contract [write(logger_identity, timestamp, level_name, message_text)],
    a synchronous write to the handler's own medium that shares no state
    with the logger; the model records the call and returns. *)
Definition Handler_write_message (h : Handler_ptr) (logger : Logger)
           (time : DateTime) (level message : string) (w : World) : World :=
  {| trace := trace w ++ [mkInvocation h logger time level message];
     warned := warned w; clock := clock w; ticks := ticks w;
     thread := thread w |}.

(** The loop of lines 187-189: one [write_message] per handler in index
    order, each with its own reading of the clock, [now()] being an
    argument of the call inside the loop.  The index is a [uint32_t]; the
    model is of vectors it can count, which a vector of shared pointers
    in memory is. *)
Definition write_to_handlers (this : Logger) (level message : string)
           (handlers : list Handler_ptr) (w : World) : World :=
  fold_left
    (fun w h =>
       let '(time, w') := now w in
       Handler_write_message h this time level message w')
    handlers w.

(** [Logger::write_message] (lines 181-190). *)
Definition write_message (this : Logger) (level text file : string)
           (line : Z) (w : World) : result World :=
  bind (Formatter.format "{0}" [Formatter.Int line]) (fun suffix =>
    let s := thread w +:+ ": " +:+ text +:+ " (" +:+ file +:+ ":"
             +:+ suffix +:+ ")" in
    Returned (write_to_handlers this level s (handlers_ this) w)).

(** [debug], [info], [warn], [error] (lines 130-146 and 170-174). *)
Definition debug (this : Logger) (text file : string) (line : Z)
           (w : World) : result World :=
  if level_value (level_ this) <? level_value LOG_LEVEL_DEBUG
  then Returned w
  else write_message this "DEBUG" text file line w.

Definition info (this : Logger) (text file : string) (line : Z)
           (w : World) : result World :=
  if level_value (level_ this) <? level_value LOG_LEVEL_INFO
  then Returned w
  else write_message this "INFO" text file line w.

Definition warn (this : Logger) (text file : string) (line : Z)
           (w : World) : result World :=
  if level_value (level_ this) <? level_value LOG_LEVEL_WARN
  then Returned w
  else write_message this "WARN" text file line w.

Definition error (this : Logger) (text file : string) (line : Z)
           (w : World) : result World :=
  if level_value (level_ this) <? level_value LOG_LEVEL_ERROR
  then Returned w
  else write_message this "ERROR" text file line w.

(** [warned.find(file) != warned.end() && warned[file].count(line)]
    (line 160); the right operand runs only when [file] is a key. *)
Definition already_logged (file : string) (line : Z) (w : World) : bool :=
  match warned w !! file with
  | Some lines => bool_decide (line ∈ lines)
  | None => false
  end.

(** [warned[file].insert(line)] (line 165): [operator[]] creates an empty
    set for a new key. *)
Definition remember (file : string) (line : Z) (w : World) : World :=
  {| trace := trace w;
     warned := <[file := {[line]} ∪ default ∅ (warned w !! file)]> (warned w);
     clock := clock w; ticks := ticks w; thread := thread w |}.

(** [warn_once] (lines 148-168). *)
Definition warn_once (this : Logger) (text file : string) (line : Z)
           (w : World) : result World :=
  if line =? -1 then warn this text file line w
  else if already_logged file line w then Returned w
  else warn this text file line (remember file line w).

(** The five logging methods, to quantify over them. *)
Inductive method :=
| Debug
| Info
| Warn
| Warn_once
| Error.

Definition call (m : method) : Logger -> string -> string -> Z -> World
                               -> result World :=
  match m with
  | Debug => debug
  | Info => info
  | Warn => warn
  | Warn_once => warn_once
  | Error => error
  end.

(** The severity a method logs at, and the name it hands to the handlers. *)
Definition severity (m : method) : LOG_LEVEL :=
  match m with
  | Debug => LOG_LEVEL_DEBUG
  | Info => LOG_LEVEL_INFO
  | Warn | Warn_once => LOG_LEVEL_WARN
  | Error => LOG_LEVEL_ERROR
  end.

Definition level_name (m : method) : string :=
  match m with
  | Debug => "DEBUG"
  | Info => "INFO"
  | Warn | Warn_once => "WARN"
  | Error => "ERROR"
  end.

(** *** Vocabulary for the statements *)

(** The line a record carries:
    [<thread-identifier>: <message text> (<origin file>:<origin line>)]. *)
Definition assembled (w : World) (text file : string) (line : Z) : string :=
  thread w +:+ ": " +:+ text +:+ " (" +:+ file +:+ ":"
  +:+ to_string line +:+ ")".

(** One invocation per attached handler, in attachment order, the [i]-th
    with the [i]-th reading of the clock from [w] on. *)
Definition fan_out (this : Logger) (level message : string) (w : World)
  : list Invocation :=
  imap (fun i h => mkInvocation h this (clock w (ticks w + i)%nat)
                                level message)
       (handlers_ this).

(** A call returned normally and added exactly [new] to the trace. *)
Definition emits (r : result World) (w : World) (new : list Invocation)
  : Prop :=
  exists w', r = Returned w' /\ trace w' = trace w ++ new.

(** The world [w] with another table, everything else the same. *)
Definition with_warned (table : gmap string (gset Z)) (w : World) : World :=
  {| trace := trace w; warned := table; clock := clock w;
     ticks := ticks w; thread := thread w |}.

(** Whether [(file, line)] is in the table. *)
Definition in_table (file : string) (line : Z) (w : World) : Prop :=
  exists lines, warned w !! file = Some lines /\ line ∈ lines.

(** Two calls of [warn_once] with the same arguments, one after the
    other, make exactly one handler invocation between them. *)
Definition one_invocation_in_two_calls (l : Logger) (text file : string)
           (line : Z) (w : World) : Prop :=
  exists w1 w2 i,
    warn_once l text file line w = Returned w1 /\
    warn_once l text file line w1 = Returned w2 /\
    trace w2 = trace w ++ [i].

(** One call of [info] makes exactly two handler invocations, and both
    receive the same message text and the same timestamp. *)
Definition two_invocations_same_text_and_time (l : Logger)
           (text file : string) (line : Z) (w : World) : Prop :=
  exists i1 i2,
    emits (info l text file line w) w [i1; i2] /\
    inv_message i1 = inv_message i2 /\
    inv_time i1 = inv_time i2.

(** *** Callers *)

(** [add_handler] for each of [hs] in turn, as a set-up routine does. *)
Definition attach (hs : list Handler_ptr) (this : Logger) : Logger :=
  fold_left (fun l h => add_handler h l) hs this.

(** One logging call as it stands in a caller: the method, the logger it
    is called on, and the arguments. *)
Record Call := mkCall {
  c_method : method;
  c_logger : Logger;
  c_text : string;
  c_file : string;
  c_line : Z
}.

Definition perform (c : Call) (w : World) : result World :=
  call (c_method c) (c_logger c) (c_text c) (c_file c) (c_line c) w.

(** Calls made one after the other; an exception that escapes one of them
    ends the sequence. *)
Fixpoint perform_all (cs : list Call) (w : World) : result World :=
  match cs with
  | [] => Returned w
  | c :: cs' => bind (perform c w) (perform_all cs')
  end.

(** *** Sample loggers and worlds *)

(** A process that has logged nothing yet; reading number [k] of its
    clock is [k]. *)
Definition fresh_world : World :=
  {| trace := []; warned := ∅; clock := Z.of_nat; ticks := 0;
     thread := "1" |}.

(** A logger as constructed, with handlers [1] and [2] attached. *)
Definition two_handlers : Logger :=
  add_handler 2%nat (add_handler 1%nat (new_Logger "root")).

(** The same with one handler. *)
Definition one_handler : Logger := add_handler 1%nat (new_Logger "root").

End Logger.

(** * Properties *)

Import Std.

(** ** Strings *)

Section StringFacts.

Lemma app_cons (c : ascii) (s t : string) :
  String c s +:+ t = String c (s +:+ t).
Proof. reflexivity. Qed.

Lemma app_empty_l (s : string) : "" +:+ s = s.
Proof. reflexivity. Qed.

Lemma app_empty_r (s : string) : s +:+ "" = s.
Proof. induction s as [|c s IH]; [done|]. by rewrite app_cons, IH. Qed.

Lemma find_empty_pattern (s : string) : find s "" = pos 0.
Proof. by destruct s. Qed.

Lemma prefix_split (pat s : string) :
  String.prefix pat s = true ->
  s = pat +:+ str_drop (String.length pat) s.
Proof.
  revert s. induction pat as [|a pat IH]; intros s H.
  - by destruct s.
  - destruct s as [|c s]; [done|]. cbn in H.
    destruct (ascii_dec a c) as [->|]; [|done].
    rewrite app_cons. cbn [String.length str_drop]. f_equal. by apply IH.
Qed.

Lemma prefix_length (pat s : string) :
  String.prefix pat s = true -> (String.length pat <= String.length s)%nat.
Proof.
  revert s. induction pat as [|a pat IH]; intros s H; cbn; [lia|].
  destruct s as [|c s]; [done|]. cbn in H.
  destruct (ascii_dec a c) as [->|]; [|done].
  specialize (IH _ H). cbn. lia.
Qed.

(** [find] reports a position inside the string, with room for the
    pattern, and the pattern is what stands there. *)
Lemma find_pos_inv (pat s : string) (n : nat) :
  find s pat = pos n ->
  s = str_take n s +:+ pat +:+ str_drop (n + String.length pat) s.
Proof.
  revert n. induction s as [|c s IH]; intros n; cbn [find].
  - destruct (String.prefix pat "") eqn:Hp; [|done].
    intros [= <-]. destruct pat; [done|discriminate].
  - destruct (String.prefix pat (String c s)) eqn:Hp.
    + intros [= <-]. cbn [str_take Nat.add]. rewrite app_empty_l.
      by apply prefix_split.
    + destruct (find s pat) as [k|] eqn:Hf; [|done].
      intros [= <-]. cbn [str_take str_drop Nat.add]. rewrite app_cons.
      f_equal. by apply IH.
Qed.

Lemma find_pos_bound (pat s : string) (n : nat) :
  find s pat = pos n -> (n + String.length pat <= String.length s)%nat.
Proof.
  revert n. induction s as [|c s IH]; intros n; cbn [find].
  - destruct (String.prefix pat "") eqn:Hp; [|done].
    intros [= <-]. by apply prefix_length in Hp.
  - destruct (String.prefix pat (String c s)) eqn:Hp.
    + intros [= <-]. by apply prefix_length in Hp.
    + destruct (find s pat) as [k|] eqn:Hf; [|done].
      intros [= <-]. specialize (IH _ eq_refl). cbn. lia.
Qed.

Lemma length_app (s t : string) :
  String.length (s +:+ t) = (String.length s + String.length t)%nat.
Proof.
  induction s as [|c s IH]; [done|]. rewrite app_cons. cbn. by rewrite IH.
Qed.

Lemma str_take_app (pre s : string) :
  str_take (String.length pre) (pre +:+ s) = pre.
Proof.
  induction pre as [|c pre IH]; [by destruct s|].
  rewrite app_cons. cbn. by rewrite IH.
Qed.

Lemma str_drop_app (pre s : string) (n : nat) :
  str_drop (String.length pre + n) (pre +:+ s) = str_drop n s.
Proof. induction pre as [|c pre IH]; [done|]. by rewrite app_cons. Qed.

Lemma str_drop_prefix (pre s : string) :
  str_drop (String.length pre) (pre +:+ s) = s.
Proof. by rewrite <- (Nat.add_0_r (String.length pre)), str_drop_app. Qed.

Lemma str_drop_all (s : string) : str_drop (String.length s) s = "".
Proof. by induction s. Qed.

Lemma prefix_app (pat s : string) : String.prefix pat (pat +:+ s) = true.
Proof.
  induction pat as [|a pat IH]; [by destruct s|]. rewrite app_cons. cbn.
  by destruct (ascii_dec a a).
Qed.

Lemma find_here (pat s : string) :
  String.prefix pat s = true -> find s pat = pos 0.
Proof. intros H. destruct s; cbn [find]; by rewrite H. Qed.

(** [find] returns the first position at which the pattern stands. *)
Lemma find_first (pat pre s : string) :
  (forall k, (k < String.length pre)%nat ->
             String.prefix pat (str_drop k (pre +:+ pat +:+ s)) = false) ->
  find (pre +:+ pat +:+ s) pat = pos (String.length pre).
Proof.
  induction pre as [|c pre IH]; intros Hfirst.
  - rewrite app_empty_l. apply find_here, prefix_app.
  - pose proof (Hfirst 0%nat) as H0. rewrite app_cons in *.
    cbn [find]. cbn [str_drop] in H0. rewrite H0 by (cbn; lia).
    rewrite IH; [done|]. intros k Hk.
    apply (Hfirst (S k)). cbn. lia.
Qed.

(** Where [find] reports [npos] the pattern stands nowhere. *)
Lemma find_npos_inv (pat s : string) (k : nat) :
  find s pat = npos -> String.prefix pat (str_drop k s) = false.
Proof.
  revert k. induction s as [|c s IH]; intros k; cbn [find].
  - destruct (String.prefix pat "") eqn:Hp; [done|]. by destruct k.
  - destruct (String.prefix pat (String c s)) eqn:Hp; [done|].
    destruct (find s pat) eqn:Hf; [done|]. intros _.
    destruct k as [|k]; [done|]. by apply IH.
Qed.

End StringFacts.

(** ** The formatter *)

Section FormatterFacts.
Import Formatter.

(** Only a single streamable argument gives a well-formed call: with more
    arguments the variadic overload needs [do_format(Counter, Counter, ...)],
    whose body streams a [Counter]. *)
Lemma instantiates_single (depth : nat) (ts : list ty) :
  instantiates (S depth) ts =
  match ts with
  | [t] => has_inserter t
  | _ => false
  end.
Proof.
  destruct ts as [|t [|t' rest]]; [done..|].
  cbn. destruct depth; cbn; apply andb_false_r.
Qed.

Lemma substitute_absent (str : string) (count : Counter) (text : string) :
  has_placeholder count str = false ->
  substitute str count text = inr out_of_range.
Proof.
  unfold has_placeholder, substitute.
  by destruct (find str (to_replace count)).
Qed.

Lemma substitute_present (pre post : string) (count : Counter)
      (text : string) :
  (forall k, (k < String.length pre)%nat ->
     String.prefix (to_replace count)
       (str_drop k (pre +:+ to_replace count +:+ post)) = false) ->
  substitute (pre +:+ to_replace count +:+ post) count text
  = inl (pre +:+ text +:+ post).
Proof.
  intros Hfirst. unfold substitute. rewrite find_first by done.
  unfold replace. rewrite !length_app.
  destruct (Nat.ltb_spec
              (String.length pre
               + (String.length (to_replace count) + String.length post))
              (String.length pre)) as [?|_]; [lia|].
  by rewrite str_take_app, str_drop_app, Nat.min_l, str_drop_prefix by lia.
Qed.

(** The model of the run needs one unit of fuel at most: the second
    specialisation stops at [ss << val]. *)
Lemma do_format_second_step (fuel : nat) (str : string) (count c : Counter)
      (v : arg) (rest : list arg) :
  do_format fuel str count (Cnt c :: v :: rest) = Ill_formed.
Proof. by destruct fuel. Qed.

Lemma do_format_fuel (fuel : nat) (str : string) (count : Counter)
      (args : list arg) :
  do_format (S fuel) str count args = do_format 1 str count args.
Proof.
  destruct args as [|v [|v' rest]]; [done..|].
  cbn [do_format]. destruct (stream v); [|done].
  destruct (substitute str count s); [|done].
  by rewrite !do_format_second_step.
Qed.

Lemma do_format_total (fuel : nat) (str : string) (count : Counter)
      (args : list arg) :
  do_format (S fuel) str count args <> Out_of_fuel.
Proof.
  destruct args as [|v [|v' rest]]; cbn [do_format]; [done|..].
  - destruct (stream v); [|done]. by destruct (substitute str count s).
  - destruct (stream v); [|done].
    destruct (substitute str count s); [|done].
    by rewrite do_format_second_step.
Qed.

(** Even read as a run-time trace, the variadic overload never returns. *)
Lemma do_format_variadic_no_return (fuel : nat) (str : string)
      (count : Counter) (v v' : arg) (rest : list arg) (s : string) :
  do_format fuel str count (v :: v' :: rest) <> Returned s.
Proof.
  destruct fuel; cbn [do_format];
    (destruct (stream v); [|done]);
    (destruct (substitute str count s0); [|done]); [done|].
  by rewrite do_format_second_step.
Qed.

Lemma format_single (str : string) (v : arg) :
  format str [v] =
  match stream v with
  | None => Ill_formed
  | Some text =>
      match substitute str (mkCounter 0) text with
      | inl result => Returned result
      | inr e => Thrown e
      end
  end.
Proof. by destruct v. Qed.

Lemma format_not_single (str : string) (args : list arg) :
  length args <> 1%nat -> format str args = Ill_formed.
Proof.
  intros Hlen. unfold format. rewrite instantiates_single.
  by destruct args as [|v [|v' rest]].
Qed.

(** With one argument the formatter does what it is meant to: the text of
    the argument takes the place of the first [{0}], and the characters on
    both sides stay as they are. *)
Lemma format_one_placeholder (pre post : string) (v : arg) (text : string) :
  stream v = Some text ->
  (forall k, (k < String.length pre)%nat ->
     String.prefix "{0}" (str_drop k (pre +:+ "{0}" +:+ post)) = false) ->
  format (pre +:+ "{0}" +:+ post) [v] = Returned (pre +:+ text +:+ post).
Proof.
  intros Hv Hfirst. rewrite format_single, Hv.
  change "{0}" with (to_replace (mkCounter 0)) in *.
  by rewrite substitute_present.
Qed.

(** The line-number suffix of a log line: [_F("{0}").format(line)]. *)
Lemma format_line (line : Z) :
  format "{0}" [Int line] = Returned (to_string line).
Proof.
  rewrite format_single. cbn [stream].
  change "{0}" with ("" +:+ to_replace (mkCounter 0) +:+ "").
  rewrite substitute_present by (cbn; lia).
  by rewrite app_empty_l, app_empty_r.
Qed.

End FormatterFacts.

(** ** The logger *)

Section LoggerFacts.
Import Logger.

Implicit Types (this l : Logger) (w : World) (m : method).
Implicit Types (text file level : string) (line : Z).

(** The loop over [handlers_]. *)
Lemma write_to_handlers_eq this level message (hs : list Handler_ptr) w :
  write_to_handlers this level message hs w =
  {| trace := trace w ++
              imap (fun i h => mkInvocation h this
                                 (clock w (ticks w + i)%nat) level message)
                   hs;
     warned := warned w; clock := clock w;
     ticks := (ticks w + length hs)%nat; thread := thread w |}.
Proof.
  revert w. induction hs as [|h hs IH]; intros [tr tb ck tk th].
  - cbn. by rewrite app_nil_r, Nat.add_0_r.
  - unfold write_to_handlers in *. cbn [fold_left now Handler_write_message].
    rewrite IH. cbn. rewrite <- app_assoc, Nat.add_0_r. cbn.
    f_equal; [|lia]. do 2 f_equal. apply imap_ext. intros i x _. cbn.
    do 2 f_equal. lia.
Qed.

(** [write_message] always returns: its one use of the formatter is
    well formed and finds its placeholder. *)
Lemma write_message_eq this level text file line w :
  write_message this level text file line w =
  Returned
    {| trace := trace w ++ fan_out this level (assembled w text file line) w;
       warned := warned w; clock := clock w;
       ticks := (ticks w + length (handlers_ this))%nat;
       thread := thread w |}.
Proof.
  unfold write_message. rewrite format_line. cbn [bind].
  by rewrite write_to_handlers_eq.
Qed.

Lemma fan_out_handlers this level message w :
  inv_handler <$> fan_out this level message w = handlers_ this.
Proof.
  unfold fan_out. generalize (ticks w). intros k.
  induction (handlers_ this) as [|h hs IH] in k |- *; [done|].
  cbn. f_equal. rewrite <- (IH (S k)) at 2. f_equal.
  apply imap_ext. intros i x _. cbn. do 2 f_equal. lia.
Qed.

Lemma fan_out_length this level message w :
  length (fan_out this level message w) = length (handlers_ this).
Proof. unfold fan_out. apply length_imap. Qed.

Lemma fan_out_elem this level message w (i : Invocation) :
  i ∈ fan_out this level message w ->
  inv_logger i = this /\ inv_level i = level /\ inv_message i = message.
Proof.
  unfold fan_out. intros Hi. apply list_elem_of_lookup in Hi as [k Hk].
  rewrite list_lookup_imap in Hk.
  destruct (handlers_ this !! k); [|done]. by injection Hk as <-.
Qed.

Lemma emits_nothing w : emits (Returned w) w [].
Proof. exists w. by rewrite app_nil_r. Qed.

(** The four plain methods: the guard, then [write_message]. *)
Lemma plain_call m this text file line w :
  m <> Warn_once ->
  call m this text file line w =
  if level_value (level_ this) <? level_value (severity m)
  then Returned w
  else write_message this (level_name m) text file line w.
Proof. by destruct m. Qed.

Lemma plain_call_emits m this text file line w :
  m <> Warn_once ->
  emits (call m this text file line w) w
    (if level_value (level_ this) <? level_value (severity m) then []
     else fan_out this (level_name m) (assembled w text file line) w).
Proof.
  intros Hm. rewrite plain_call by done.
  destruct (level_value (level_ this) <? level_value (severity m)).
  - apply emits_nothing.
  - rewrite write_message_eq. by eexists.
Qed.

(** *** The table of [warn_once] *)

Lemma already_logged_true file line w :
  already_logged file line w = true <-> in_table file line w.
Proof.
  unfold already_logged, in_table. split.
  - destruct (warned w !! file) as [lines|]; [|done].
    intros H%bool_decide_eq_true. eauto.
  - intros (lines & -> & H). by apply bool_decide_eq_true.
Qed.

Lemma already_logged_false file line w :
  already_logged file line w = false <-> ~ in_table file line w.
Proof.
  rewrite <- already_logged_true. by destruct (already_logged file line w).
Qed.

Lemma remember_in_table file line w : in_table file line (remember file line w).
Proof.
  unfold in_table, remember. cbn. rewrite lookup_insert_eq.
  eexists. split; [done|]. set_solver.
Qed.

(** The table only grows. *)
Lemma remember_grows file line w (f : string) (n : Z) :
  in_table f n w -> in_table f n (remember file line w).
Proof.
  unfold in_table, remember. cbn. intros (lines & Hf & Hn).
  destruct (decide (file = f)) as [->|Hne].
  - rewrite lookup_insert_eq, Hf. eexists. split; [done|]. set_solver.
  - rewrite lookup_insert_ne by done. eauto.
Qed.

(** It grows by the one key [(file, line)]. *)
Lemma remember_only file line w (f : string) (n : Z) :
  in_table f n (remember file line w) ->
  (f = file /\ n = line) \/ in_table f n w.
Proof.
  unfold in_table, remember. cbn. intros (lines & Hf & Hn).
  destruct (decide (file = f)) as [->|Hne].
  - rewrite lookup_insert_eq in Hf. injection Hf as <-.
    apply elem_of_union in Hn as [Hn%elem_of_singleton|Hn]; [by left|].
    right. destruct (warned w !! f) as [lines|]; [eauto|set_solver].
  - rewrite lookup_insert_ne in Hf by done. eauto.
Qed.

(** The three ways through [warn_once]. *)
Lemma warn_once_no_line this text file w :
  warn_once this text file (-1) w = warn this text file (-1) w.
Proof. reflexivity. Qed.

Lemma warn_once_seen this text file line w :
  line <> -1 -> in_table file line w ->
  warn_once this text file line w = Returned w.
Proof.
  intros Hline Hin%already_logged_true. unfold warn_once.
  destruct (Z.eqb_spec line (-1)); [done|]. by rewrite Hin.
Qed.

Lemma warn_once_new this text file line w :
  line <> -1 -> ~ in_table file line w ->
  warn_once this text file line w
  = warn this text file line (remember file line w).
Proof.
  intros Hline Hin%already_logged_false. unfold warn_once.
  destruct (Z.eqb_spec line (-1)); [done|]. by rewrite Hin.
Qed.

(** [warn] leaves the table alone. *)
Lemma warn_emits this text file line w :
  exists w',
    warn this text file line w = Returned w' /\
    trace w' = trace w ++
      (if level_value (level_ this) <? level_value LOG_LEVEL_WARN then []
       else fan_out this "WARN" (assembled w text file line) w) /\
    warned w' = warned w.
Proof.
  unfold warn.
  destruct (level_value (level_ this) <? level_value LOG_LEVEL_WARN).
  - exists w. by rewrite app_nil_r.
  - rewrite write_message_eq. by eexists.
Qed.

End LoggerFacts.

(** * The specification, statement by statement *)

Section FormatterClaims.
Import Formatter.

(** C2 — formatting ["{0}-{1}"] with the arguments [(42, "x")] should
    yield ["42-x"].  It does not: with two arguments the variadic
    [do_format] re-enters [format] with the next [Counter] in front, so
    the call needs [do_format(Counter, Counter, T)], whose body
    streams a [Counter]; the call has no well-formed instantiation, and
    the statements of the overload, followed one by one, stop at that
    [ss << val] without returning a string. *)
Theorem format_two_arguments :
  format "{0}-{1}" [Int 42; Str "x"] = Ill_formed /\
  forall fuel s,
    do_format fuel "{0}-{1}" (mkCounter 0) [Int 42; Str "x"] <> Returned s.
Proof.
  split; [reflexivity|]. intros fuel s.
  apply do_format_variadic_no_return.
Qed.

(** C3, as stated, fails: the template ["{0}-{1}"] has the placeholder
    [{1}] and one argument is supplied, fewer than there are
    placeholders; formatting returns the partially substituted
    ["42-{1}"]. *)
Lemma fewer_arguments_returns_partial :
  has_placeholder (mkCounter 1) "{0}-{1}" = true /\
  format "{0}-{1}" [Int 42] = Returned "42-{1}" /\
  ~ exists e, format "{0}-{1}" [Int 42] = Thrown e.
Proof. repeat split. by intros [e He]. Qed.

(** C10 — formatting ["{0}{1}"] with the arguments ["{1}"] and ["x"]
    should yield ["x{1}"], the second step replacing the token the first
    one injected.  There is no second step: as for every call with two
    arguments, the instantiation is ill formed and no string is
    returned. *)
Theorem format_injected_placeholder :
  format "{0}{1}" [Str "{1}"; Str "x"] = Ill_formed /\
  forall fuel s,
    do_format fuel "{0}{1}" (mkCounter 0) [Str "{1}"; Str "x"] <> Returned s.
Proof.
  split; [reflexivity|]. intros fuel s.
  apply do_format_variadic_no_return.
Qed.

End FormatterClaims.

Section LoggerClaims.
Import Logger.

Implicit Types (l : Logger) (w : World) (m : method).
Implicit Types (text file : string) (line : Z).

(** C1 — a call of [debug], [info], [warn] or [error] reaches the
    handlers only if its severity is at most the threshold of the logger,
    and then it invokes every attached handler once, in attachment order;
    with threshold [INFO], [debug] invokes no handler and [warn] and
    [error] invoke each attached handler once, in attachment order. *)
Theorem severity_filter m l text file line w :
  m <> Warn_once ->
  exists new,
    emits (call m l text file line w) w new /\
    inv_handler <$> new =
      (if bool_decide (level_value (severity m) <= level_value (level_ l))
       then handlers_ l else []) /\
    (level_ l = LOG_LEVEL_INFO ->
     (m = Debug -> new = []) /\
     (m = Warn \/ m = Error -> inv_handler <$> new = handlers_ l)).
Proof.
  intros Hm. eexists. split; [by apply plain_call_emits|]. split.
  - destruct (Z.ltb_spec (level_value (level_ l)) (level_value (severity m)));
      case_bool_decide; try lia; [done|apply fan_out_handlers].
  - intros ->. split.
    + by intros ->.
    + intros [-> | ->]; apply fan_out_handlers.
Qed.

Lemma severity_filter_witness :
  exists new,
    emits (warn (set_level LOG_LEVEL_INFO two_handlers) "disk" "io.cpp" 7
                fresh_world) fresh_world new /\
    inv_handler <$> new = [1; 2]%nat.
Proof.
  destruct (severity_filter Warn (set_level LOG_LEVEL_INFO two_handlers)
              "disk" "io.cpp" 7 fresh_world) as (new & Hnew & Hs & _).
  - discriminate.
  - exists new. split; [exact Hnew | exact Hs].
Defined.

(** C6 — after [set_level(LOG_LEVEL_NONE)], each of [debug], [info],
    [warn], [error] and [warn_once] returns without invoking a handler. *)
Theorem threshold_none_silences m l text file line w :
  emits (call m (set_level LOG_LEVEL_NONE l) text file line w) w [].
Proof.
  assert (forall w0, trace w0 = trace w ->
            emits (warn (set_level LOG_LEVEL_NONE l) text file line w0) w [])
    as Hwarn.
  { intros w0 Htr. exists w0. by rewrite Htr, app_nil_r. }
  destruct m; cbn [call]; try apply emits_nothing; try by apply Hwarn.
  unfold warn_once. destruct (line =? -1); [by apply Hwarn|].
  destruct (already_logged file line w); [apply emits_nothing|].
  by apply Hwarn.
Qed.

(** C7 — [warn_once] with the line [-1] is [warn] with the same
    arguments: the same result in every world, the table is left as it
    was, and the table has no influence on what the call does. *)
Theorem warn_once_sentinel_is_warn l text file w :
  warn_once l text file (-1) w = warn l text file (-1) w /\
  exists w',
    warn_once l text file (-1) w = Returned w' /\
    warned w' = warned w /\
    forall table,
      warn_once l text file (-1) (with_warned table w)
      = Returned (with_warned table w').
Proof.
  split; [reflexivity|]. rewrite warn_once_no_line. unfold warn.
  destruct (level_value (level_ l) <? level_value LOG_LEVEL_WARN) eqn:Hlv.
  - exists w. repeat split. intros table.
    rewrite warn_once_no_line. unfold warn. by rewrite Hlv.
  - rewrite write_message_eq. eexists. split; [reflexivity|].
    split; [done|]. intros table.
    rewrite warn_once_no_line. unfold warn.
    by rewrite Hlv, write_message_eq.
Qed.

(** What a call of [warn] leaves in the table is what it found. *)
Lemma warn_new_key l text file line w :
  exists w1,
    warn l text file line (remember file line w) = Returned w1 /\
    trace w1 = trace w ++
      (if level_value (level_ l) <? level_value LOG_LEVEL_WARN then []
       else fan_out l "WARN" (assembled w text file line) w) /\
    warned w1 = warned (remember file line w).
Proof.
  destruct (warn_emits l text file line (remember file line w))
    as (w1 & Hw1 & Htr & Htb).
  exists w1. by repeat split.
Qed.

Lemma already_logged_warned file line w w' :
  warned w' = warned w ->
  already_logged file line w' = already_logged file line w.
Proof. unfold already_logged. by intros ->. Qed.

Lemma already_logged_remember file line w :
  already_logged file line (remember file line w) = true.
Proof. apply already_logged_true, remember_in_table. Qed.

Lemma already_logged_grows file line w (f : string) (n : Z) :
  already_logged f n w = true ->
  already_logged f n (remember file line w) = true.
Proof. rewrite !already_logged_true. apply remember_grows. Qed.

Lemma already_logged_other file line (file2 : string) (line2 : Z) w :
  (file2, line2) <> (file, line) ->
  already_logged file2 line2 w = false ->
  already_logged file2 line2 (remember file line w) = false.
Proof.
  rewrite !already_logged_false. intros Hne Hout Hin.
  apply remember_only in Hin as [[-> ->]|?]; done.
Qed.

Lemma warn_once_seen_b l text file line w :
  line <> -1 -> already_logged file line w = true ->
  warn_once l text file line w = Returned w.
Proof. intros ? ?%already_logged_true. by apply warn_once_seen. Qed.

Lemma warn_once_new_b l text file line w :
  line <> -1 -> already_logged file line w = false ->
  warn_once l text file line w = warn l text file line (remember file line w).
Proof. intros ? ?%already_logged_false. by apply warn_once_new. Qed.

(** C4, as stated, fails twice over.  A logger with two handlers, in a
    process that has warned nowhere yet: the two calls of [warn_once] at
    ["f.cpp"], line 10, make two invocations, not one.  A logger with one
    handler, in a process where that line is in the table already: the
    two calls make none. *)
Lemma warn_once_twice_not_one :
  ~ one_invocation_in_two_calls two_handlers "x" "f.cpp" 10 fresh_world /\
  ~ one_invocation_in_two_calls one_handler "x" "f.cpp" 10
      (remember "f.cpp" 10 fresh_world).
Proof.
  split; intros (w1' & w2' & i & H1 & H2 & Htr').
  - destruct (warn_new_key two_handlers "x" "f.cpp" 10 fresh_world)
      as (w1 & Hw1 & Htr & Htb).
    rewrite warn_once_new_b, Hw1 in H1 by done. injection H1 as <-.
    rewrite warn_once_seen_b in H2; [injection H2 as <-| done |].
    + by rewrite Htr in Htr'.
    + by rewrite (already_logged_warned _ _ _ _ Htb),
        already_logged_remember.
  - rewrite warn_once_seen_b in H1
      by (done || apply already_logged_remember).
    injection H1 as <-.
    rewrite warn_once_seen_b in H2
      by (done || apply already_logged_remember).
    by injection H2 as <-.
Qed.

(** C4, amended — for a logger whose threshold permits WARN and a key
    [(file, line)], [line] not [-1], that is not in the table yet: the
    first [warn_once] invokes every attached handler once, in attachment
    order, and puts the key in the table; a second [warn_once] with that
    key, through any logger, changes nothing and invokes no handler; a
    [warn_once] with another key (another line, or another file) that is
    not in the table yet invokes every attached handler once more; and
    what is in the table stays in it. *)
Theorem warn_once_dedup l (l2 : Logger) text (text2 : string) file line
        (file2 : string) (line2 : Z) w :
  level_value LOG_LEVEL_WARN <= level_value (level_ l) ->
  line <> -1 ->
  already_logged file line w = false ->
  exists w1 new,
    warn_once l text file line w = Returned w1 /\
    trace w1 = trace w ++ new /\
    inv_handler <$> new = handlers_ l /\
    warn_once l2 text2 file line w1 = Returned w1 /\
    already_logged file line w1 = true /\
    (forall f n, already_logged f n w = true ->
                 already_logged f n w1 = true) /\
    (line2 <> -1 -> (file2, line2) <> (file, line) ->
     already_logged file2 line2 w = false ->
     exists w2 new2,
       warn_once l text2 file2 line2 w1 = Returned w2 /\
       trace w2 = trace w1 ++ new2 /\
       inv_handler <$> new2 = handlers_ l /\
       (forall f n, already_logged f n w1 = true ->
                    already_logged f n w2 = true)).
Proof.
  intros Hlv Hline Hnew.
  assert ((level_value (level_ l) <? level_value LOG_LEVEL_WARN) = false)
    as Hguard by (apply Z.ltb_ge; lia).
  destruct (warn_new_key l text file line w) as (w1 & Hw1 & Htr & Htb).
  rewrite Hguard in Htr.
  assert (already_logged file line w1 = true) as Hseen.
  { by rewrite (already_logged_warned _ _ _ _ Htb), already_logged_remember. }
  exists w1, (fan_out l "WARN" (assembled w text file line) w).
  rewrite warn_once_new_b by done.
  split; [done|]. split; [done|]. split; [apply fan_out_handlers|].
  split; [by apply warn_once_seen_b|]. split; [done|]. split.
  - intros f n Hin.
    rewrite (already_logged_warned _ _ _ _ Htb).
    by apply already_logged_grows.
  - intros Hline2 Hne Hnew2.
    assert (already_logged file2 line2 w1 = false) as Hnew2'.
    { rewrite (already_logged_warned _ _ _ _ Htb).
      by apply already_logged_other. }
    destruct (warn_new_key l text2 file2 line2 w1)
      as (w2 & Hw2 & Htr2 & Htb2).
    rewrite Hguard in Htr2.
    exists w2, (fan_out l "WARN" (assembled w1 text2 file2 line2) w1).
    rewrite warn_once_new_b by done.
    split; [done|]. split; [done|]. split; [apply fan_out_handlers|].
    intros f n Hin. rewrite (already_logged_warned _ _ _ _ Htb2).
    by apply already_logged_grows.
Qed.

Lemma warn_once_dedup_witness :
  exists w1 new,
    warn_once two_handlers "x" "f.cpp" 10 fresh_world = Returned w1 /\
    trace w1 = trace fresh_world ++ new /\
    inv_handler <$> new = [1; 2]%nat /\
    warn_once one_handler "y" "f.cpp" 10 w1 = Returned w1 /\
    exists w2 new2,
      warn_once two_handlers "y" "f.cpp" 11 w1 = Returned w2 /\
      trace w2 = trace w1 ++ new2 /\
      inv_handler <$> new2 = [1; 2]%nat.
Proof.
  destruct (warn_once_dedup two_handlers one_handler "x" "y" "f.cpp" 10
              "f.cpp" 11 fresh_world)
    as (w1 & new & H1 & H2 & H3 & H4 & _ & _ & H7).
  - vm_compute. discriminate.
  - lia.
  - reflexivity.
  - destruct H7 as (w2 & new2 & H8 & H9 & H10 & _).
    + lia.
    + discriminate.
    + reflexivity.
    + exists w1, new. repeat split; try assumption.
      exists w2, new2. repeat split; assumption.
Defined.

(** The scenario of the claim in the setting it has in mind: one handler,
    nothing warned yet. *)
Example warn_once_twice_one_handler :
  one_invocation_in_two_calls one_handler "x" "f.cpp" 10 fresh_world.
Proof.
  destruct (warn_new_key one_handler "x" "f.cpp" 10 fresh_world)
    as (w1 & Hw1 & Htr & Htb).
  exists w1, w1. eexists. rewrite warn_once_new_b by done.
  split; [done|]. split; [|exact Htr].
  apply warn_once_seen_b; [done|].
  by rewrite (already_logged_warned _ _ _ _ Htb), already_logged_remember.
Qed.

(** C5, as stated, fails: the logger with two handlers and threshold
    DEBUG, in a process whose clock advances between two readings.  The
    loop reads the clock once per handler, so the two invocations of one
    [info("hello")] receive different timestamps. *)
Lemma info_timestamps_differ :
  level_ two_handlers = LOG_LEVEL_DEBUG /\
  ~ two_invocations_same_text_and_time two_handlers "hello" "None" (-1)
      fresh_world.
Proof.
  split; [reflexivity|].
  intros (i1 & i2 & (w' & Hw' & Htr) & _ & Htime).
  unfold info in Hw'. cbn [level_ two_handlers add_handler new_Logger] in Hw'.
  rewrite write_message_eq in Hw'. injection Hw' as <-.
  cbn in Htr. injection Htr as <- <-. discriminate Htime.
Qed.

(** C5, amended — for a logger with two handlers and threshold DEBUG, one
    call of [info] makes exactly two invocations, one per handler in
    attachment order, both with the level name INFO and the same
    message text; each receives its own reading of the system clock, the
    second taken after the first. *)
Theorem info_two_handlers (name : string) (h1 h2 : Handler_ptr)
        text file line w :
  emits (info (mkLogger name [h1; h2] LOG_LEVEL_DEBUG) text file line w) w
    [ mkInvocation h1 (mkLogger name [h1; h2] LOG_LEVEL_DEBUG)
                   (clock w (ticks w)) "INFO" (assembled w text file line);
      mkInvocation h2 (mkLogger name [h1; h2] LOG_LEVEL_DEBUG)
                   (clock w (S (ticks w))) "INFO"
                   (assembled w text file line) ].
Proof.
  unfold info. cbn [level_ level_value Z.ltb Z.compare Pos.compare
                    Pos.compare_cont].
  rewrite write_message_eq. eexists. split; [reflexivity|].
  cbn. by rewrite Nat.add_0_r, Nat.add_1_r.
Qed.

(** C9 — a [warn_once] with a line other than [-1] and a key that is not
    in the table puts the key in the table whatever the threshold of the
    logger; when the threshold is below WARN it invokes no handler; and
    from then on a [warn_once] with that key returns at once, without
    invoking a handler, whatever threshold the logger is set to. *)
Theorem warn_once_remembers_when_suppressed l text file line w :
  line <> -1 ->
  already_logged file line w = false ->
  exists w1,
    warn_once l text file line w = Returned w1 /\
    already_logged file line w1 = true /\
    (level_value (level_ l) < level_value LOG_LEVEL_WARN ->
     trace w1 = trace w) /\
    forall (lv : LOG_LEVEL) (text2 : string),
      warn_once (set_level lv l) text2 file line w1 = Returned w1.
Proof.
  intros Hline Hnew.
  destruct (warn_new_key l text file line w) as (w1 & Hw1 & Htr & Htb).
  assert (already_logged file line w1 = true) as Hseen.
  { by rewrite (already_logged_warned _ _ _ _ Htb), already_logged_remember. }
  exists w1. rewrite warn_once_new_b by done.
  split; [done|]. split; [done|]. split.
  - intros Hlv%Z.ltb_lt. rewrite Hlv in Htr. by rewrite app_nil_r in Htr.
  - intros lv text2. by apply warn_once_seen_b.
Qed.

Lemma warn_once_remembers_when_suppressed_witness :
  exists w1,
    warn_once (set_level LOG_LEVEL_ERROR one_handler) "x" "f.cpp" 10
              fresh_world = Returned w1 /\
    trace w1 = trace fresh_world /\
    warn_once (set_level LOG_LEVEL_DEBUG
                 (set_level LOG_LEVEL_ERROR one_handler)) "x" "f.cpp" 10 w1
    = Returned w1.
Proof.
  destruct (warn_once_remembers_when_suppressed
              (set_level LOG_LEVEL_ERROR one_handler) "x" "f.cpp" 10
              fresh_world)
    as (w1 & H1 & _ & H3 & H4).
  - lia.
  - reflexivity.
  - exists w1. split; [exact H1|]. split; [apply H3; reflexivity|].
    apply H4.
Defined.

End LoggerClaims.


(** * Further properties *)

(** ** Strings, continued *)

Section MoreStringFacts.

Lemma length_str_take (n : nat) (s : string) :
  (n <= String.length s)%nat -> String.length (str_take n s) = n.
Proof.
  revert s. induction n as [|n IH]; intros [|c s] Hn; cbn in *;
    try done; try lia.
  rewrite IH; [done|lia].
Qed.

(** Where [find] reports a position the pattern stands there ... *)
Lemma find_pos_prefix (pat s : string) (n : nat) :
  find s pat = pos n -> String.prefix pat (str_drop n s) = true.
Proof.
  revert n. induction s as [|c s IH]; intros n; cbn [find].
  - destruct (String.prefix pat "") eqn:Hp; [|done]. by intros [= <-].
  - destruct (String.prefix pat (String c s)) eqn:Hp.
    + by intros [= <-].
    + destruct (find s pat) as [k|] eqn:Hf; [|done].
      intros [= <-]. cbn [str_drop]. by apply IH.
Qed.

(** ... and at no position before it. *)
Lemma find_pos_first (pat s : string) (n k : nat) :
  find s pat = pos n -> (k < n)%nat ->
  String.prefix pat (str_drop k s) = false.
Proof.
  revert n k. induction s as [|c s IH]; intros n k; cbn [find].
  - destruct (String.prefix pat "") eqn:Hp; [|done]. intros [= <-]. lia.
  - destruct (String.prefix pat (String c s)) eqn:Hp.
    + intros [= <-]. lia.
    + destruct (find s pat) as [j|] eqn:Hf; [|done].
      intros [= <-] Hk. destruct k as [|k]; [done|].
      cbn [str_drop]. apply (IH j); [done|lia].
Qed.

(** Whether the pattern stands at the front of a string depends on as
    many characters as the pattern has. *)
Lemma prefix_app_l (pat s t : string) :
  (String.length pat <= String.length s)%nat ->
  String.prefix pat (s +:+ t) = String.prefix pat s.
Proof.
  revert s. induction pat as [|a pat IH]; intros s Hlen.
  - by destruct s, t.
  - destruct s as [|c s]; [cbn in Hlen; lia|].
    rewrite app_cons. cbn. destruct (ascii_dec a c); [|done].
    apply IH. cbn in Hlen. lia.
Qed.

Lemma str_drop_app_l (k : nat) (s t : string) :
  (k <= String.length s)%nat ->
  str_drop k (s +:+ t) = str_drop k s +:+ t.
Proof.
  revert s. induction k as [|k IH]; intros s Hk; [done|].
  destruct s as [|c s]; [cbn in Hk; lia|].
  rewrite app_cons. cbn [str_drop]. apply IH. cbn in Hk. lia.
Qed.

Lemma length_str_drop (k : nat) (s : string) :
  String.length (str_drop k s) = (String.length s - k)%nat.
Proof.
  revert s. induction k as [|k IH]; intros s; [cbn; lia|].
  destruct s as [|c s]; [done|]. cbn [str_drop String.length]. by rewrite IH.
Qed.

(** An occurrence that ends inside [s] is an occurrence in [s +:+ t]. *)
Lemma occurrence_app_l (pat s t : string) (k : nat) :
  (k + String.length pat <= String.length s)%nat ->
  String.prefix pat (str_drop k (s +:+ t)) = String.prefix pat (str_drop k s).
Proof.
  intros Hk. rewrite str_drop_app_l by lia.
  apply prefix_app_l. rewrite length_str_drop. lia.
Qed.

End MoreStringFacts.

(** ** The formatter, continued *)

Section MoreFormatterFacts.
Import Formatter.

Lemma app_assoc_s (s t u : string) : (s +:+ t) +:+ u = s +:+ t +:+ u.
Proof.
  induction s as [|c s IH]; [done|]. by rewrite !app_cons, IH.
Qed.

Lemma has_placeholder_false (count : Counter) (str : string) :
  has_placeholder count str = false <-> find str (to_replace count) = npos.
Proof. unfold has_placeholder. by destruct (find str (to_replace count)). Qed.

(** No [{0}] in [pre +:+ "{0"]: the [{0}] that follows [pre] is the first
    one of [pre +:+ "{0}" +:+ post]. *)
Lemma first_placeholder (pre post : string) (k : nat) :
  has_placeholder (mkCounter 0) (pre +:+ "{0") = false ->
  (k < String.length pre)%nat ->
  String.prefix "{0}" (str_drop k (pre +:+ "{0}" +:+ post)) = false.
Proof.
  intros Hp%has_placeholder_false Hk.
  change (pre +:+ "{0}" +:+ post) with (pre +:+ "{0" +:+ "}" +:+ post).
  rewrite <- app_assoc_s, occurrence_app_l
    by (rewrite length_app; cbn; lia).
  by apply find_npos_inv.
Qed.

(** X1 — with one argument, [format] puts the text of the argument in the
    place of the first [{0}] of the template and keeps every character
    before and after it, later [{0}] tokens included. *)
Theorem format_replaces_first_placeholder (pre post : string) (v : arg)
        (text : string) :
  stream v = Some text ->
  has_placeholder (mkCounter 0) (pre +:+ "{0") = false ->
  format (pre +:+ "{0}" +:+ post) [v] = Returned (pre +:+ text +:+ post).
Proof.
  intros Hv Hp. apply format_one_placeholder; [done|].
  intros k Hk. by apply first_placeholder.
Qed.

Lemma format_replaces_first_placeholder_witness :
  format "line {0} of {0}" [Int 7] = Returned "line 7 of {0}".
Proof.
  apply (format_replaces_first_placeholder "line " " of {0}" (Int 7) "7");
    reflexivity.
Defined.

(** X2 — [format] returns a string for one argument only: with none, or
    with two or more, the call is ill formed whatever the template, and
    the statements of [do_format] followed one by one return nothing. *)
Theorem format_needs_one_argument (str : string) (args : list arg) :
  length args <> 1%nat ->
  format str args = Ill_formed /\
  forall fuel r, do_format fuel str (mkCounter 0) args <> Returned r.
Proof.
  intros Hlen. split; [by apply format_not_single|]. intros fuel r.
  destruct args as [|v [|v' rest]]; [by destruct fuel|done|].
  apply do_format_variadic_no_return.
Qed.

Lemma format_needs_one_argument_witness :
  format "{0}{1}{2}" [Int 1; Str "b"; Int 3] = Ill_formed /\
  format "plain" [] = Ill_formed.
Proof.
  split.
  - apply (format_needs_one_argument "{0}{1}{2}" [Int 1; Str "b"; Int 3]).
    cbn. lia.
  - apply (format_needs_one_argument "plain" []). cbn. lia.
Defined.

(** X3 — whatever [format] returns for one argument is the template with
    its first [{0}] replaced by the text of the argument: nothing else is
    added, dropped or reordered. *)
Theorem format_returns_only_substituted (str : string) (v : arg)
        (r : string) :
  format str [v] = Returned r ->
  exists text pre post,
    stream v = Some text /\
    str = pre +:+ "{0}" +:+ post /\
    r = pre +:+ text +:+ post /\
    has_placeholder (mkCounter 0) (pre +:+ "{0") = false.
Proof.
  rewrite format_single. destruct (stream v) as [text|]; [|done].
  unfold substitute, replace.
  destruct (find str (to_replace (mkCounter 0))) as [n|] eqn:Hf; [|done].
  pose proof (find_pos_bound _ _ _ Hf) as Hb.
  pose proof (find_pos_inv _ _ _ Hf) as Hs.
  destruct (Nat.ltb_spec (String.length str) n); [lia|].
  rewrite Nat.min_l by lia. intros Hr. injection Hr as <-.
  change (to_replace (mkCounter 0)) with "{0}" in *.
  cbn [String.length] in *.
  exists text, (str_take n str), (str_drop (n + 3) str).
  split; [done|]. split; [done|]. split; [done|].
  apply has_placeholder_false. change (to_replace (mkCounter 0)) with "{0}".
  destruct (find (str_take n str +:+ "{0") "{0}") as [k|] eqn:Hk; [|done].
  exfalso.
  pose proof (find_pos_bound _ _ _ Hk) as Hkb.
  rewrite length_app, length_str_take in Hkb by lia. cbn in Hkb.
  apply find_pos_prefix in Hk.
  rewrite <- (occurrence_app_l _ _ ("}" +:+ str_drop (n + 3) str)) in Hk
    by (rewrite length_app, length_str_take; cbn; lia).
  rewrite app_assoc_s in Hk.
  change ("{0" +:+ "}" +:+ str_drop (n + 3) str)
    with ("{0}" +:+ str_drop (n + 3) str) in Hk.
  rewrite <- Hs in Hk.
  rewrite (find_pos_first "{0}" str n k) in Hk; [done|done|lia].
Qed.

Lemma format_returns_only_substituted_witness :
  exists text pre post,
    Some "-5" = Some text /\
    "a{0}b{0}" = pre +:+ "{0}" +:+ post /\
    "a-5b{0}" = pre +:+ text +:+ post.
Proof.
  destruct (format_returns_only_substituted "a{0}b{0}" (Int (-5)) "a-5b{0}")
    as (text & pre & post & H1 & H2 & H3 & _).
  - reflexivity.
  - exists text, pre, post. repeat split; assumption.
Defined.

(** The [{0}] that [find] reports is the first one: none starts in the
    characters before it. *)
Lemma found_placeholder_is_first (str : string) (n : nat) :
  find str "{0}" = pos n ->
  has_placeholder (mkCounter 0) (str_take n str +:+ "{0") = false.
Proof.
  intros Hf.
  pose proof (find_pos_bound _ _ _ Hf) as Hb.
  pose proof (find_pos_inv _ _ _ Hf) as Hs. cbn [String.length] in *.
  apply has_placeholder_false. change (to_replace (mkCounter 0)) with "{0}".
  destruct (find (str_take n str +:+ "{0") "{0}") as [k|] eqn:Hk; [|done].
  exfalso.
  pose proof (find_pos_bound _ _ _ Hk) as Hkb.
  rewrite length_app, length_str_take in Hkb by lia. cbn in Hkb.
  apply find_pos_prefix in Hk.
  rewrite <- (occurrence_app_l _ _ ("}" +:+ str_drop (n + 3) str)) in Hk
    by (rewrite length_app, length_str_take; cbn; lia).
  rewrite app_assoc_s in Hk.
  change ("{0" +:+ "}" +:+ str_drop (n + 3) str)
    with ("{0}" +:+ str_drop (n + 3) str) in Hk.
  rewrite <- Hs in Hk.
  rewrite (find_pos_first "{0}" str n k) in Hk; [done|done|lia].
Qed.

(** C3, amended — formatting one argument raises [std::out_of_range]
    exactly when the placeholder [{0}] is absent from the template, and
    returns no string then.  Whenever [{0}] is present, whatever other
    placeholders the template holds, the call returns the template with
    its first [{0}] replaced by the text of the argument: the template is
    [pre], [{0}], [post] with no [{0}] starting inside [pre], and the
    result is [pre], the text, [post]. *)
Theorem absent_placeholder_throws (str : string) (v : arg) (text : string) :
  stream v = Some text ->
  (has_placeholder (mkCounter 0) str = false ->
   format str [v] = Thrown out_of_range) /\
  (has_placeholder (mkCounter 0) str = true ->
   exists pre post,
     str = pre +:+ "{0}" +:+ post /\
     has_placeholder (mkCounter 0) (pre +:+ "{0") = false /\
     format str [v] = Returned (pre +:+ text +:+ post)).
Proof.
  intros Hv. split; intros Hp.
  - by rewrite format_single, Hv, substitute_absent.
  - unfold has_placeholder in Hp.
    change (to_replace (mkCounter 0)) with "{0}" in Hp.
    destruct (find str "{0}") as [n|] eqn:Hf; [|done].
    pose proof (find_pos_inv _ _ _ Hf) as Hs. cbn [String.length] in Hs.
    pose proof (found_placeholder_is_first _ _ Hf) as Hfirst.
    exists (str_take n str), (str_drop (n + 3) str).
    split; [done|]. split; [done|].
    rewrite Hs at 1. apply format_one_placeholder; [done|].
    intros k Hk. by apply first_placeholder.
Qed.

Lemma absent_placeholder_throws_witness :
  format "no placeholder" [Int 7] = Thrown out_of_range /\
  exists pre post,
    "line {0} of {1}" = pre +:+ "{0}" +:+ post /\
    has_placeholder (mkCounter 0) (pre +:+ "{0") = false /\
    format "line {0} of {1}" [Int 7] = Returned (pre +:+ "7" +:+ post).
Proof.
  split.
  - apply (absent_placeholder_throws "no placeholder" (Int 7) "7");
      reflexivity.
  - apply (absent_placeholder_throws "line {0} of {1}" (Int 7) "7");
      reflexivity.
Defined.

End MoreFormatterFacts.

(** ** The logger, continued *)

Section MoreLoggerFacts.
Import Logger.

Implicit Types (l : Logger) (w : World) (m : method).
Implicit Types (text file : string) (line : Z).

(** What every logging call does to the world, in one statement: it
    returns; it adds to the trace nothing, or one invocation per handler;
    it reads the clock once per invocation; it leaves the clock and the
    thread alone; and it takes nothing out of the table. *)
Lemma call_shape m l text file line w :
  exists w' new,
    call m l text file line w = Returned w' /\
    trace w' = trace w ++ new /\
    clock w' = clock w /\
    thread w' = thread w /\
    ticks w' = (ticks w + length new)%nat /\
    (new = [] \/
     new = fan_out l (level_name m) (assembled w text file line) w) /\
    (forall f n, already_logged f n w = true -> already_logged f n w' = true).
Proof.
  assert (forall w0,
            trace w0 = trace w -> clock w0 = clock w ->
            ticks w0 = ticks w -> thread w0 = thread w ->
            (forall f n, already_logged f n w = true ->
                         already_logged f n w0 = true) ->
            exists w' new,
              Returned w0 = Returned w' /\
              trace w' = trace w ++ new /\
              clock w' = clock w /\
              thread w' = thread w /\
              ticks w' = (ticks w + length new)%nat /\
              (new = [] \/
               new = fan_out l (level_name m) (assembled w text file line) w) /\
              (forall f n, already_logged f n w = true ->
                           already_logged f n w' = true)) as Hquiet.
  { intros w0 Htr Hck Htk Hth Htb. exists w0, [].
    rewrite app_nil_r. cbn. rewrite Nat.add_0_r. by eauto 10. }
  assert (forall w0,
            trace w0 = trace w -> clock w0 = clock w ->
            ticks w0 = ticks w -> thread w0 = thread w ->
            (forall f n, already_logged f n w = true ->
                         already_logged f n w0 = true) ->
            exists w' new,
              write_message l (level_name m) text file line w0 = Returned w' /\
              trace w' = trace w ++ new /\
              clock w' = clock w /\
              thread w' = thread w /\
              ticks w' = (ticks w + length new)%nat /\
              (new = [] \/
               new = fan_out l (level_name m) (assembled w text file line) w) /\
              (forall f n, already_logged f n w = true ->
                           already_logged f n w' = true)) as Hwrite.
  { intros w0 Htr Hck Htk Hth Htb. rewrite write_message_eq.
    assert (fan_out l (level_name m) (assembled w0 text file line) w0
            = fan_out l (level_name m) (assembled w text file line) w) as ->.
    { unfold fan_out, assembled. by rewrite Hck, Htk, Hth. }
    eexists _, _. split; [reflexivity|]. cbn.
    rewrite fan_out_length, Htr, Htk.
    split; [done|]. split; [done|]. split; [done|]. split; [done|].
    split; [by right|].
    intros f n Hin. rewrite <- (Htb f n Hin). by apply already_logged_warned. }
  destruct m; cbn [call level_name] in *;
    unfold debug, info, warn_once, warn, error;
    repeat match goal with
           | |- context [if ?b then _ else _] => destruct b
           end;
    first [ by apply Hquiet
          | by apply Hwrite
          | apply Hquiet; try done; intros; by apply already_logged_grows
          | apply Hwrite; try done; intros; by apply already_logged_grows ].
Qed.

Lemma fan_out_lookup l (level message : string) w (k : nat)
      (i : Invocation) :
  fan_out l level message w !! k = Some i ->
  inv_time i = clock w (ticks w + k)%nat /\
  inv_logger i = l /\ inv_level i = level /\ inv_message i = message /\
  handlers_ l !! k = Some (inv_handler i).
Proof.
  unfold fan_out. rewrite list_lookup_imap.
  destruct (handlers_ l !! k); [|done]. by intros [= <-].
Qed.

(** X4 — a logging call reads the system clock once for each handler it
    invokes and not at all when it invokes none: the [k]-th invocation of
    the call carries the [k]-th reading taken since the call began, and
    the clock itself and the thread are as before. *)
Theorem clock_read_per_invocation m l text file line w :
  exists w' new,
    call m l text file line w = Returned w' /\
    trace w' = trace w ++ new /\
    clock w' = clock w /\
    thread w' = thread w /\
    ticks w' = (ticks w + length new)%nat /\
    forall (k : nat) (i : Invocation),
      new !! k = Some i -> inv_time i = clock w (ticks w + k)%nat.
Proof.
  destruct (call_shape m l text file line w)
    as (w' & new & Hc & Htr & Hck & Hth & Htk & Hnew & _).
  exists w', new. repeat split; try done.
  intros k i Hk. destruct Hnew as [-> | ->]; [done|].
  by apply fan_out_lookup in Hk as (? & _).
Qed.

(** X5 — every invocation a logging call makes hands the handler the
    logger the method was called on and the name of the method's level:
    DEBUG, INFO, WARN or ERROR, and WARN for [warn_once]. *)
Theorem invocation_names_logger_and_level m l text file line w :
  exists w' new,
    call m l text file line w = Returned w' /\
    trace w' = trace w ++ new /\
    forall i, i ∈ new -> inv_logger i = l /\ inv_level i = level_name m.
Proof.
  destruct (call_shape m l text file line w)
    as (w' & new & Hc & Htr & _ & _ & _ & Hnew & _).
  exists w', new. repeat split; try done;
    destruct Hnew as [-> | ->]; try by apply elem_of_nil in H.
  - by apply fan_out_elem in H as (? & _).
  - by apply fan_out_elem in H as (_ & ? & _).
Qed.

(** Which handlers a call invokes: all the attached ones, in order, when
    the level of the method passes the threshold and, for [warn_once] with
    a line, the key is new; none otherwise. *)
Lemma call_handlers m l text file line w :
  exists new,
    emits (call m l text file line w) w new /\
    inv_handler <$> new =
      if bool_decide (level_value (severity m) <= level_value (level_ l))
         && negb match m with
                 | Warn_once => negb (line =? -1) && already_logged file line w
                 | _ => false
                 end
      then handlers_ l else [].
Proof.
  assert (forall lv w0, trace w0 = trace w ->
            exists new,
              emits (if level_value (level_ l) <? level_value lv
                     then Returned w0
                     else write_message l (level_name m) text file line w0)
                    w new /\
              inv_handler <$> new =
                if bool_decide (level_value lv <= level_value (level_ l))
                then handlers_ l else []) as Hguard.
  { intros lv w0 Htr.
    destruct (Z.ltb_spec (level_value (level_ l)) (level_value lv));
      case_bool_decide; try lia.
    - exists []. split; [|done]. exists w0. by rewrite Htr, app_nil_r.
    - rewrite write_message_eq. eexists. split.
      + eexists. split; [reflexivity|]. cbn. by rewrite Htr.
      + apply fan_out_handlers. }
  destruct m; cbn [call severity];
    rewrite ?andb_true_r; try by apply (Hguard _ w).
  unfold warn_once. destruct (line =? -1); cbn [negb andb].
  - rewrite andb_true_r. by apply (Hguard LOG_LEVEL_WARN w).
  - destruct (already_logged file line w); cbn [negb].
    + rewrite andb_false_r. exists []. split; [apply emits_nothing|done].
    + rewrite andb_true_r. by apply (Hguard LOG_LEVEL_WARN).
Qed.

Lemma attach_handlers (hs : list Handler_ptr) l :
  handlers_ (attach hs l) = handlers_ l ++ hs /\
  level_ (attach hs l) = level_ l /\
  name_ (attach hs l) = name_ l.
Proof.
  unfold attach. revert l. induction hs as [|h hs IH]; intros l; cbn.
  - by rewrite app_nil_r.
  - destruct (IH (add_handler h l)) as (-> & -> & ->). cbn.
    by rewrite <- app_assoc.
Qed.

(** X6 — [debug], [info], [warn] and [error] never touch the table of
    [warn_once]: a plain [warn] at a call site does not use up the
    [warn_once] of that site. *)
Theorem plain_calls_leave_table m l text file line w :
  m <> Warn_once ->
  exists w',
    call m l text file line w = Returned w' /\
    warned w' = warned w /\
    forall f n, already_logged f n w' = already_logged f n w.
Proof.
  intros Hm. rewrite plain_call by done.
  destruct (level_value (level_ l) <? level_value (severity m)).
  - by exists w.
  - rewrite write_message_eq. eexists. split; [reflexivity|].
    split; [done|]. intros f n. by apply already_logged_warned.
Qed.

Lemma plain_calls_leave_table_witness :
  exists w',
    warn two_handlers "x" "f.cpp" 10 fresh_world = Returned w' /\
    already_logged "f.cpp" 10 w' = false.
Proof.
  destruct (plain_calls_leave_table Warn two_handlers "x" "f.cpp" 10
              fresh_world) as (w' & H1 & _ & H3).
  - discriminate.
  - exists w'. split; [exact H1|]. rewrite H3. reflexivity.
Defined.

(** X7 — [add_handler] appends and changes nothing else: after attaching
    the handlers [hs], a call that passes the threshold the logger had
    invokes the handlers attached before, in their order, and then [hs]
    in the order of attachment, a handler attached twice being invoked
    twice; a call that does not pass invokes none. *)
Theorem attach_appends (hs : list Handler_ptr) m l text file line w :
  m <> Warn_once ->
  exists new,
    emits (call m (attach hs l) text file line w) w new /\
    inv_handler <$> new =
      if bool_decide (level_value (severity m) <= level_value (level_ l))
      then handlers_ l ++ hs else [].
Proof.
  intros Hm.
  destruct (call_handlers m (attach hs l) text file line w)
    as (new & Hnew & Hh).
  destruct (attach_handlers hs l) as (Hhs & Hlv & _).
  exists new. split; [done|]. rewrite Hh, Hhs, Hlv.
  destruct m; try done; by rewrite andb_true_r.
Qed.

Lemma attach_appends_witness :
  exists new,
    emits (error (attach [7; 7]%nat one_handler) "x" "f.cpp" 3 fresh_world)
          fresh_world new /\
    inv_handler <$> new = [1; 7; 7]%nat.
Proof.
  destruct (attach_appends [7; 7]%nat Error one_handler "x" "f.cpp" 3
              fresh_world) as (new & H1 & H2).
  - discriminate.
  - exists new. split; [exact H1 | exact H2].
Defined.

(** X8 — a logger as constructed has the threshold DEBUG: once handlers
    are attached, each of [debug], [info], [warn] and [error] invokes all
    of them, in the order of attachment; with none attached the call
    returns without an invocation. *)
Theorem new_logger_passes_all_levels (name : string)
        (hs : list Handler_ptr) m text file line w :
  m <> Warn_once ->
  exists new,
    emits (call m (attach hs (new_Logger name)) text file line w) w new /\
    inv_handler <$> new = hs.
Proof.
  intros Hm.
  destruct (call_handlers m (attach hs (new_Logger name)) text file line w)
    as (new & Hnew & Hh).
  destruct (attach_handlers hs (new_Logger name)) as (Hhs & Hlv & _).
  exists new. split; [done|]. rewrite Hh, Hhs, Hlv.
  by destruct m.
Qed.

Lemma new_logger_passes_all_levels_witness :
  exists new,
    emits (debug (attach [4; 5]%nat (new_Logger "net")) "x" "f.cpp" 3
                 fresh_world) fresh_world new /\
    inv_handler <$> new = [4; 5]%nat.
Proof.
  destruct (new_logger_passes_all_levels "net" [4; 5]%nat Debug "x" "f.cpp" 3
              fresh_world) as (new & H1 & H2).
  - discriminate.
  - exists new. split; [exact H1 | exact H2].
Defined.

(** X9 — [warn_once], the whole decision: it invokes every attached
    handler, in order, when the threshold permits WARN and either the line
    is [-1] or the key [(file, line)] is not in the table; it invokes no
    handler otherwise. *)
Theorem warn_once_decision l text file line w :
  exists new,
    emits (warn_once l text file line w) w new /\
    inv_handler <$> new =
      if bool_decide (level_value LOG_LEVEL_WARN <= level_value (level_ l))
         && ((line =? -1) || negb (already_logged file line w))
      then handlers_ l else [].
Proof.
  destruct (call_handlers Warn_once l text file line w) as (new & Hnew & Hh).
  exists new. split; [done|]. rewrite Hh. cbn [severity].
  by destruct (line =? -1), (already_logged file line w).
Qed.

(** X10 — raising the threshold of a logger never takes output away: a
    call that invokes the handlers under one threshold invokes the same
    handlers under every threshold at least as verbose. *)
Theorem raising_threshold_keeps_output m l (lv lv' : LOG_LEVEL)
        text file line w :
  level_value lv <= level_value lv' ->
  exists new new',
    emits (call m (set_level lv l) text file line w) w new /\
    emits (call m (set_level lv' l) text file line w) w new' /\
    (new = [] \/
     (inv_handler <$> new = handlers_ l /\
      inv_handler <$> new' = handlers_ l)).
Proof.
  intros Hle.
  destruct (call_handlers m (set_level lv l) text file line w)
    as (new & Hnew & Hh).
  destruct (call_handlers m (set_level lv' l) text file line w)
    as (new' & Hnew' & Hh').
  exists new, new'. split; [done|]. split; [done|].
  cbn [level_ set_level handlers_] in *.
  destruct (negb _) in Hh, Hh'.
  - rewrite andb_true_r in *. repeat case_bool_decide; try lia.
    + by right.
    + left. by destruct new.
    + left. by destruct new.
  - rewrite andb_false_r in *. left. by destruct new.
Qed.

Lemma raising_threshold_keeps_output_witness :
  exists new new',
    emits (warn (set_level LOG_LEVEL_WARN two_handlers) "x" "f.cpp" 3
                fresh_world) fresh_world new /\
    emits (warn (set_level LOG_LEVEL_DEBUG two_handlers) "x" "f.cpp" 3
                fresh_world) fresh_world new'.
Proof.
  destruct (raising_threshold_keeps_output Warn two_handlers LOG_LEVEL_WARN
              LOG_LEVEL_DEBUG "x" "f.cpp" 3 fresh_world)
    as (new & new' & H1 & H2 & _).
  - cbn. lia.
  - exists new, new'. split; [exact H1 | exact H2].
Defined.

(** *** Sequences of calls *)

Lemma fan_out_origin l (level message : string) w (i : Invocation) :
  i ∈ fan_out l level message w ->
  inv_handler i ∈ handlers_ l /\
  inv_logger i = l /\ inv_level i = level /\ inv_message i = message.
Proof.
  intros Hi. apply list_elem_of_lookup in Hi as [k Hk].
  apply fan_out_lookup in Hk as (_ & ? & ? & ? & Hh).
  split; [|done]. apply list_elem_of_lookup. eauto.
Qed.

(** What a sequence of calls does to the world. *)
Lemma perform_all_shape (cs : list Call) w :
  exists w' new,
    perform_all cs w = Returned w' /\
    trace w' = trace w ++ new /\
    clock w' = clock w /\
    thread w' = thread w /\
    ticks w' = (ticks w + length new)%nat /\
    (forall f n, already_logged f n w = true -> already_logged f n w' = true) /\
    (forall i, i ∈ new ->
       exists c, c ∈ cs /\
         inv_handler i ∈ handlers_ (c_logger c) /\
         inv_logger i = c_logger c /\
         inv_level i = level_name (c_method c) /\
         inv_message i = assembled w (c_text c) (c_file c) (c_line c)).
Proof.
  revert w. induction cs as [|c cs IH]; intros w.
  - exists w, []. rewrite app_nil_r, Nat.add_0_r. cbn.
    repeat split; try done. by intros i ?%elem_of_nil.
  - destruct (call_shape (c_method c) (c_logger c) (c_text c) (c_file c)
                (c_line c) w)
      as (w1 & new1 & Hc & Htr1 & Hck1 & Hth1 & Htk1 & Hnew1 & Htb1).
    destruct (IH w1) as (w2 & new2 & Hcs & Htr2 & Hck2 & Hth2 & Htk2
                         & Htb2 & Hfrom2).
    exists w2, (new1 ++ new2). cbn [perform_all]. unfold perform at 1.
    rewrite Hc. cbn [bind].
    split; [done|]. split; [by rewrite Htr2, Htr1, app_assoc|].
    split; [congruence|]. split; [congruence|].
    split; [rewrite Htk2, Htk1, List.length_app; lia|].
    split; [by auto|].
    intros i [Hi|Hi]%elem_of_app.
    + exists c. split; [by left|].
      destruct Hnew1 as [-> | ->]; [by apply elem_of_nil in Hi|].
      by apply fan_out_origin in Hi.
    + destruct (Hfrom2 i Hi) as (c' & Hc' & ? & ? & ? & Hmsg).
      exists c'. split; [by right|]. repeat split; try done.
      rewrite Hmsg. unfold assembled. by rewrite Hth1.
Qed.

(** X11 — whatever sequence of logging calls a thread makes, none of them
    lets an exception escape, what was in the trace stays in it, in
    place, and every invocation added was asked for: it goes to a handler
    of the logger of one of the calls, names that logger and the level of
    the method, and carries the text assembled from the arguments of that
    call. *)
Theorem nothing_logged_unasked (cs : list Call) w :
  exists w' new,
    perform_all cs w = Returned w' /\
    trace w' = trace w ++ new /\
    forall i, i ∈ new ->
      exists c, c ∈ cs /\
        inv_handler i ∈ handlers_ (c_logger c) /\
        inv_logger i = c_logger c /\
        inv_level i = level_name (c_method c) /\
        inv_message i = assembled w (c_text c) (c_file c) (c_line c).
Proof.
  destruct (perform_all_shape cs w)
    as (w' & new & Hcs & Htr & _ & _ & _ & _ & Hfrom).
  by exists w', new.
Qed.

(** X12 — [warn_once] is once for the life of the process: after a
    [warn_once] with a line other than [-1], whatever its outcome and
    whatever calls are made afterwards on whatever loggers, a [warn_once]
    with the same file and line returns at once and changes nothing. *)
Theorem warn_once_once_per_process (l0 : Logger) (text0 : string) file line
        (cs : list Call) w :
  line <> -1 ->
  exists w1 w2,
    warn_once l0 text0 file line w = Returned w1 /\
    perform_all cs w1 = Returned w2 /\
    forall l text, warn_once l text file line w2 = Returned w2.
Proof.
  intros Hline.
  assert (exists w1, warn_once l0 text0 file line w = Returned w1 /\
                     already_logged file line w1 = true) as (w1 & Hw1 & Hin).
  { destruct (already_logged file line w) eqn:Hseen.
    - exists w. by rewrite warn_once_seen_b.
    - destruct (warn_new_key l0 text0 file line w) as (w1 & Hw1 & _ & Htb).
      exists w1. rewrite warn_once_new_b by done. split; [done|].
      by rewrite (already_logged_warned _ _ _ _ Htb),
        already_logged_remember. }
  destruct (perform_all_shape cs w1)
    as (w2 & new & Hcs & _ & _ & _ & _ & Htb & _).
  exists w1, w2. split; [done|]. split; [done|].
  intros l text. apply warn_once_seen_b; [done|]. by apply Htb.
Qed.

Lemma warn_once_once_per_process_witness :
  exists w1 w2,
    warn_once one_handler "x" "f.cpp" 10 fresh_world = Returned w1 /\
    perform_all [mkCall Error two_handlers "y" "g.cpp" 4;
                 mkCall Warn_once two_handlers "z" "f.cpp" 11] w1
    = Returned w2 /\
    warn_once two_handlers "x" "f.cpp" 10 w2 = Returned w2.
Proof.
  destruct (warn_once_once_per_process one_handler "x" "f.cpp" 10
              [mkCall Error two_handlers "y" "g.cpp" 4;
               mkCall Warn_once two_handlers "z" "f.cpp" 11] fresh_world)
    as (w1 & w2 & H1 & H2 & H3).
  - lia.
  - exists w1, w2. split; [exact H1|]. split; [exact H2 | apply H3].
Defined.

(** X13 — without a line there is no once: [n] calls of [warn_once] with
    the line [-1], the default, on a logger whose threshold permits WARN
    invoke every attached handler [n] times, whatever the file and
    whatever the table holds. *)
Theorem warn_once_without_line_repeats (n : nat) l text file w :
  level_value LOG_LEVEL_WARN <= level_value (level_ l) ->
  exists w' new,
    perform_all (replicate n (mkCall Warn_once l text file (-1))) w
    = Returned w' /\
    trace w' = trace w ++ new /\
    inv_handler <$> new = concat (replicate n (handlers_ l)).
Proof.
  intros Hlv. revert w. induction n as [|n IH]; intros w.
  - exists w, []. by rewrite app_nil_r.
  - destruct (call_handlers Warn_once l text file (-1) w)
      as (new1 & (w1 & Hw1 & Htr1) & Hh1).
    destruct (IH w1) as (w2 & new2 & Hw2 & Htr2 & Hh2).
    exists w2, (new1 ++ new2). cbn [replicate perform_all].
    unfold perform at 1. cbn [c_method c_logger c_text c_file c_line].
    rewrite Hw1. cbn [bind].
    split; [done|]. split; [by rewrite Htr2, Htr1, app_assoc|].
    rewrite fmap_app, Hh1, Hh2. cbn [severity Z.eqb negb andb concat].
    rewrite bool_decide_true by done. done.
Qed.

Lemma warn_once_without_line_repeats_witness :
  exists w' new,
    perform_all (replicate 3 (mkCall Warn_once two_handlers "x" "None" (-1)))
                fresh_world = Returned w' /\
    trace w' = trace fresh_world ++ new /\
    inv_handler <$> new = [1; 2; 1; 2; 1; 2]%nat.
Proof.
  destruct (warn_once_without_line_repeats 3 two_handlers "x" "None"
              fresh_world) as (w' & new & H1 & H2 & H3).
  - cbn. lia.
  - exists w', new. split; [exact H1|]. split; [exact H2 | exact H3].
Defined.

(** *** What the handlers are handed *)

Lemma fan_out_pairs l (level message : string) w :
  (fun i => (inv_handler i, inv_message i)) <$> fan_out l level message w
  = (fun h => (h, message)) <$> handlers_ l.
Proof.
  unfold fan_out. generalize (ticks w). intros k.
  induction (handlers_ l) as [|h hs IH] in k |- *; [done|].
  cbn. f_equal. rewrite <- (IH (S k)). f_equal.
  apply imap_ext. intros i x _. cbn. do 2 f_equal. lia.
Qed.

(** The invocations of a call, all of them: the fan-out of the assembled
    text when the level of the method passes the threshold and, for
    [warn_once] with a line, the key is new; none otherwise. *)
Lemma call_fan_out m l text file line w :
  emits (call m l text file line w) w
    (if bool_decide (level_value (severity m) <= level_value (level_ l))
        && negb match m with
                | Warn_once => negb (line =? -1) && already_logged file line w
                | _ => false
                end
     then fan_out l (level_name m) (assembled w text file line) w
     else []).
Proof.
  assert (forall lv w0,
            trace w0 = trace w -> clock w0 = clock w ->
            ticks w0 = ticks w -> thread w0 = thread w ->
            emits (if level_value (level_ l) <? level_value lv
                   then Returned w0
                   else write_message l (level_name m) text file line w0)
                  w
                  (if bool_decide (level_value lv <= level_value (level_ l))
                   then fan_out l (level_name m)
                          (assembled w text file line) w
                   else [])) as Hguard.
  { intros lv w0 Htr Hck Htk Hth.
    destruct (Z.ltb_spec (level_value (level_ l)) (level_value lv));
      case_bool_decide; try lia.
    - exists w0. by rewrite Htr, app_nil_r.
    - rewrite write_message_eq. eexists. split; [reflexivity|]. cbn.
      unfold fan_out, assembled. by rewrite Htr, Hck, Htk, Hth. }
  destruct m; cbn [call severity level_name];
    rewrite ?andb_true_r; try by apply (Hguard _ w).
  unfold warn_once. destruct (line =? -1); cbn [negb andb].
  - rewrite andb_true_r. by apply (Hguard LOG_LEVEL_WARN w).
  - destruct (already_logged file line w); cbn [negb].
    + rewrite andb_false_r. apply emits_nothing.
    + rewrite andb_true_r. by apply (Hguard LOG_LEVEL_WARN).
Qed.

(** C8 — a logging call that is not filtered out hands every attached
    handler, in attachment order, the text
    [<thread>: <text> (<file>:<line>)], whose line number is what
    [Formatter("{0}").format(line)] returns, the decimal form of [line];
    a call that is filtered out (by the threshold, or by [warn_once]
    having seen the key) hands nothing to anyone; and no record carries
    another text. *)
Theorem message_assembly m l text file line w :
  exists suffix new,
    Formatter.format "{0}" [Formatter.Int line] = Returned suffix /\
    suffix = to_string line /\
    emits (call m l text file line w) w new /\
    (fun i => (inv_handler i, inv_message i)) <$> new =
      (if bool_decide (level_value (severity m) <= level_value (level_ l))
          && negb match m with
                  | Warn_once =>
                      negb (line =? -1) && already_logged file line w
                  | _ => false
                  end
       then (fun h => (h, thread w +:+ ": " +:+ text +:+ " (" +:+ file
                          +:+ ":" +:+ suffix +:+ ")")) <$> handlers_ l
       else []) /\
    forall i, i ∈ new ->
      inv_message i =
      thread w +:+ ": " +:+ text +:+ " (" +:+ file +:+ ":"
      +:+ suffix +:+ ")".
Proof.
  exists (to_string line). eexists.
  split; [apply format_line|]. split; [done|].
  split; [apply call_fan_out|]. split.
  - destruct (_ && _); [|done]. apply fan_out_pairs.
  - intros i Hi. destruct (_ && _); [|by apply elem_of_nil in Hi].
    by apply fan_out_elem in Hi as (_ & _ & ?).
Qed.

End MoreLoggerFacts.
